(** * MoEngage documentation scraper: link collection, URL filtering and
      heading-driven section segmentation (full_logic.ipynb)

    The notebook is embedded shallowly.  A Python [str] is a sequence of
    Unicode code points; the DOM handles returned by the browser are records
    holding exactly the values the code reads from them; every [print] call
    is recorded, in order, as one output string. *)

From Stdlib Require Import NArith String Ascii List Bool Lia.
From stdpp Require Import base list gmap.

Import ListNotations.
Local Open Scope list_scope.

(** ** Python strings *)

Module PyStr.

(** A Python [str]: its code points, in order. *)
Definition pystr : Type := list N.

(** A source literal (all literals of the notebook are ASCII). *)
Definition lit (s : string) : pystr :=
  List.map N_of_ascii (list_ascii_of_string s).

(** Truth value of a [str] in a condition: non-empty. *)
Definition truthy (s : pystr) : bool :=
  match s with
  | [] => false
  | _ :: _ => true
  end.

(** Truth value of the result of [get_attribute], which is [None] or a
    [str]. *)
Definition truthy_opt (o : option pystr) : bool :=
  match o with
  | None => false
  | Some s => truthy s
  end.

(** [s.startswith(prefix)] *)
Fixpoint startswith (s prefix : pystr) {struct prefix} : bool :=
  match prefix, s with
  | [], _ => true
  | _ :: _, [] => false
  | p :: prefix', c :: s' => N.eqb c p && startswith s' prefix'
  end.

(** [s1 == s2] *)
Fixpoint str_eqb (s1 s2 : pystr) : bool :=
  match s1, s2 with
  | [], [] => true
  | c1 :: s1', c2 :: s2' => N.eqb c1 c2 && str_eqb s1' s2'
  | _, _ => false
  end.

(** The characters [str.strip()] removes: those for which CPython's
    [Py_UNICODE_ISSPACE] holds. *)
Definition isspace (c : N) : bool :=
  ((9 <=? c) && (c <=? 13)           (* \t \n \v \f \r *)
   || (28 <=? c) && (c <=? 32)       (* FS GS RS US and the space *)
   || (c =? 133)                     (* NEL *)
   || (c =? 160)                     (* no-break space *)
   || (c =? 5760)                    (* U+1680 *)
   || (8192 <=? c) && (c <=? 8202)   (* U+2000 .. U+200A *)
   || (c =? 8232) || (c =? 8233)     (* line and paragraph separators *)
   || (c =? 8239) || (c =? 8287)     (* U+202F, U+205F *)
   || (c =? 12288))%N.               (* U+3000 *)

(** [s.lstrip()] *)
Fixpoint lstrip (s : pystr) : pystr :=
  match s with
  | [] => []
  | c :: s' => if isspace c then lstrip s' else s
  end.

(** [s.rstrip()] *)
Definition rstrip (s : pystr) : pystr := rev (lstrip (rev s)).

(** [s.strip()] *)
Definition strip (s : pystr) : pystr := rstrip (lstrip s).

(** Whether [s] holds a character that [strip] keeps. *)
Definition has_nonspace (s : pystr) : bool :=
  existsb (fun c => negb (isspace c)) s.

Definition pystr_eq_dec : forall s1 s2 : pystr, {s1 = s2} + {s1 <> s2} :=
  List.list_eq_dec N.eq_dec.

End PyStr.

Import PyStr.

(** ** Link Collector: the href loop of [debug_all_links] *)

Module Collector.

(** An anchor handle, as far as the loop reads it: the result of
    [link.get_attribute('href')]. *)
Record Anchor : Type := { href : option pystr }.

(** <<
    all_hrefs = []
    for link in links:
        href = await link.get_attribute('href')
        if href:
            all_hrefs.append(href)
    >> *)
Fixpoint href_loop (links : list Anchor) (all_hrefs : list pystr)
  : list pystr :=
  match links with
  | [] => all_hrefs
  | link :: links' =>
      match href link with
      | Some h =>
          if truthy h then href_loop links' (all_hrefs ++ [h])
          else href_loop links' all_hrefs
      | None => href_loop links' all_hrefs
      end
  end.

Definition debug_all_links (links : list Anchor) : list pystr :=
  href_loop links [].

(** The hrefs the loop is meant to keep, written as a list comprehension. *)
Fixpoint kept_hrefs (links : list Anchor) : list pystr :=
  match links with
  | [] => []
  | link :: links' =>
      match href link with
      | Some (c :: h) => (c :: h) :: kept_hrefs links'
      | _ => kept_hrefs links'
      end
  end.

End Collector.

(** ** URL Filter: the [filtered_links] loop *)

Module Filter.

Definition allowed_prefixes : list pystr :=
  [ lit "https://help.moengage.com/hc/en-us/articles/";
    lit "https://developers.moengage.com/hc/en-us/articles/";
    lit "https://partners.moengage.com/hc/en-us/articles/" ].

(** [any(url.startswith(prefix) for prefix in allowed_prefixes)] *)
Definition is_allowed (url : pystr) : bool :=
  existsb (fun prefix => startswith url prefix) allowed_prefixes.

(** <<
    filtered_links = []
    for row in reader:
        url = row['URL']
        if any(url.startswith(prefix) for prefix in allowed_prefixes):
            filtered_links.append(url)
    >>
    [rows] holds the value of the URL column of each row, in file order. *)
Fixpoint filter_loop (rows : list pystr) (filtered_links : list pystr)
  : list pystr :=
  match rows with
  | [] => filtered_links
  | url :: rows' =>
      if is_allowed url then filter_loop rows' (filtered_links ++ [url])
      else filter_loop rows' filtered_links
  end.

Definition filtered_links (rows : list pystr) : list pystr :=
  filter_loop rows [].

(** The raw links of the specification's first end-to-end example. *)
Definition example_url : pystr :=
  lit "https://help.moengage.com/hc/en-us/articles/123-X".

Definition example_raw_links : list pystr :=
  [ lit "/relative"; example_url; lit "javascript:void(0)"; example_url ].

End Filter.

(** ** Article scraping: [scrape_article_with_sections] and
       [scrape_single_article] *)

Module Scraper.

(** A direct child of the body container, as far as the loop reads it:
    - [tag]: the result of [child.evaluate("el => el.tagName.toLowerCase()")];
    - [inner_text]: the result of [child.inner_text()];
    - [img_elements]: for each handle of [child.query_selector_all('img')],
      in order, the result of [img.get_attribute('src')]. *)
Record Element : Type := {
  tag : pystr;
  inner_text : pystr;
  img_elements : list (option pystr)
}.

(** The handle returned by [page.query_selector('div.article__body')], as
    far as the two functions read it: its [inner_text()] and the handles of
    [body_el.query_selector_all(':scope > *')]. *)
Record BodyEl : Type := {
  body_inner_text : pystr;
  body_children : list Element
}.

(** A loaded page: [title_el] is [None] when ['h6.article-title'] matches
    nothing and the title element's [inner_text()] otherwise; [body_el] is
    [None] when ['div.article__body'] matches nothing. *)
Record Page : Type := {
  title_el : option pystr;
  body_el : option BodyEl
}.

(** The two variables of the segmentation loop. *)
Record LoopState : Type := {
  current_section : pystr;
  section_content : pystr
}.

(** One emitted section: the two values interpolated into
    [f"\nSection: {current_section}\n{section_content.strip()}"]. *)
Record Section : Type := {
  heading : pystr;
  content : pystr
}.

Definition newline : pystr := [10%N].

(** [f"\nSection: {current_section}\n{section_content.strip()}"] *)
Definition print_section (s : Section) : pystr :=
  newline ++ lit "Section: " ++ heading s ++ newline ++ content s.

Definition intro_heading : pystr := lit "Intro (before first H2)".

Definition initial_state : LoopState :=
  {| current_section := intro_heading; section_content := [] |}.

(** [f"[Image: {src}]\n"] *)
Definition image_line (src : pystr) : pystr :=
  lit "[Image: " ++ src ++ lit "]" ++ newline.

(** <<
    for img in img_elements:
        src = await img.get_attribute('src')
        if src:
            section_content += f"[Image: {src}]\n"
    >> *)
Fixpoint img_loop (imgs : list (option pystr)) (section_content : pystr)
  : pystr :=
  match imgs with
  | [] => section_content
  | img :: imgs' =>
      match img with
      | Some src =>
          if truthy src
          then img_loop imgs' (section_content ++ image_line src)
          else img_loop imgs' section_content
      | None => img_loop imgs' section_content
      end
  end.

Definition is_h2 (child : Element) : bool := str_eqb (tag child) (lit "h2").

(** The body of the [for child in body_children] loop: the sections it
    prints and the state it leaves. *)
Definition loop_body (st : LoopState) (child : Element)
  : list Section * LoopState :=
  if is_h2 child then
    if truthy (strip (section_content st)) then
      ([ {| heading := current_section st;
            content := strip (section_content st) |} ],
       {| current_section := inner_text child; section_content := [] |})
    else
      ([], {| current_section := inner_text child;
              section_content := section_content st |})
  else
    let section_content1 :=
      if truthy (strip (inner_text child))
      then section_content st ++ (inner_text child ++ newline)
      else section_content st in
    ([], {| current_section := current_section st;
            section_content :=
              img_loop (img_elements child) section_content1 |}).

(** The whole loop, from a given state. *)
Fixpoint run_loop (st : LoopState) (children : list Element)
  : list Section * LoopState :=
  match children with
  | [] => ([], st)
  | child :: children' =>
      let (out, st1) := loop_body st child in
      let (out', st2) := run_loop st1 children' in
      (out ++ out', st2)
  end.

(** The [if section_content.strip():] print after the loop. *)
Definition final_flush (st : LoopState) : list Section :=
  if truthy (strip (section_content st)) then
    [ {| heading := current_section st;
         content := strip (section_content st) |} ]
  else [].

(** The sections printed for a body container's children, in order. *)
Definition segment (children : list Element) : list Section :=
  let (out, st) := run_loop initial_state children in
  out ++ final_flush st.

Definition no_title : pystr := lit "[No Title Found]".
Definition no_body : pystr := lit "[No Body Found]".

(** [title = await title_el.inner_text() if title_el else '[No Title Found]'] *)
Definition title_of (page : Page) : pystr := default no_title (title_el page).

(** [s[:n]] for a non-negative [n]. *)
Definition slice_to (n : nat) (s : pystr) : pystr := firstn n s.


(** [scrape_single_article]: the strings it prints, in order. *)
Definition scrape_single_article (url : pystr) (page : Page) : list pystr :=
  [ lit "Scraping: " ++ url;
    newline ++ lit "Title:";
    title_of page;
    newline ++ lit "Body Text (first 500 chars):";
    slice_to 500 (default no_body (body_inner_text <$> body_el page)) ].

(** Whether a non-heading child adds anything to [section_content]. *)
Definition contributes (child : Element) : bool :=
  truthy (strip (inner_text child)) || existsb truthy_opt (img_elements child).

(** The text a run of non-heading children adds to [section_content]. *)
Definition text_piece (child : Element) : pystr :=
  if truthy (strip (inner_text child)) then inner_text child ++ newline
  else [].

Definition image_pieces (imgs : list (option pystr)) : pystr :=
  List.concat
    (List.map image_line
       (List.map (default []) (List.filter truthy_opt imgs))).

(** What a non-heading child adds to [section_content]. *)
Definition pieces (child : Element) : pystr :=
  text_piece child ++ image_pieces (img_elements child).

(** What a run of non-heading children adds to [section_content]. *)
Definition run_content (run : list Element) : pystr :=
  List.concat (List.map pieces run).

(** Loop invariant: whatever has been accumulated shows a visible character,
    so the content is empty exactly when its stripped form is. *)
Definition content_ok (st : LoopState) : Prop :=
  has_nonspace (section_content st) = truthy (section_content st).

(** The headings of the body, in document order. *)
Definition h2_texts (children : list Element) : list pystr :=
  List.map inner_text (List.filter is_h2 children).


Definition no_h2 (run : list Element) : bool :=
  forallb (fun c => negb (is_h2 c)) run.

(** The body of the specification's second end-to-end example:
    [p:"Intro text", h2:"Setup", p:"Step1", div(img src="x.png"), h2:"FAQ",
    p:"Q1"]. *)
Definition example_body : list Element :=
  [ {| tag := lit "p"; inner_text := lit "Intro text"; img_elements := [] |};
    {| tag := lit "h2"; inner_text := lit "Setup"; img_elements := [] |};
    {| tag := lit "p"; inner_text := lit "Step1"; img_elements := [] |};
    {| tag := lit "div"; inner_text := [];
       img_elements := [Some (lit "x.png")] |};
    {| tag := lit "h2"; inner_text := lit "FAQ"; img_elements := [] |};
    {| tag := lit "p"; inner_text := lit "Q1"; img_elements := [] |} ].

(** A heading whose visible text starts with a no-break space (as
    [<h2>&nbsp;Setup</h2>] renders), followed by one paragraph. *)
Definition nbsp_body : list Element :=
  [ {| tag := lit "h2"; inner_text := 160%N :: lit "Setup";
       img_elements := [] |};
    {| tag := lit "p"; inner_text := lit "Step1"; img_elements := [] |} ].

End Scraper.

(** ** The CSV files between the cells

    The first cell writes [extracted_links.csv] with [csv.writer], the second
    reads it back with [csv.DictReader] and writes
    [filtered_article_links.csv].  A file is modelled by its rows, each the
    list of its fields: the arguments of the [writerow] calls when written,
    the lists [csv.reader] yields when read. *)

Module Csv.
Import Collector Filter.

Definition URL : pystr := lit "URL".

(** <<
    writer.writerow(['URL'])  # header
    for href in all_hrefs:
        writer.writerow([href])
    >> *)
Definition write_rows (items : list pystr) : list (list pystr) :=
  [URL] :: List.map (fun item => [item]) items.

(** A value of a [DictReader] row: a field, [restval] (which is [None]), or
    the list of surplus fields stored under [restkey]. *)
Inductive Value : Type :=
| VStr (s : pystr)
| VNone
| VList (l : list pystr).

(** A key of a [DictReader] row: a field name, or [restkey] (which is
    [None]). *)
Definition Key : Type := option pystr.

Definition restkey : Key := None.

(** [dict(zip(fieldnames, row))]: the pairs are inserted in order, a later
    pair replacing an earlier one with the same key. *)
Definition dict_zip (fieldnames row : list pystr) : gmap Key Value :=
  fold_left (fun d kv => <[Some (fst kv) := VStr (snd kv)]> d)
            (combine fieldnames row) ∅.

(** <<
    d = dict(zip(self.fieldnames, row))
    lf = len(self.fieldnames)
    lr = len(row)
    if lf < lr:
        d[self.restkey] = row[lf:]
    elif lf > lr:
        for key in self.fieldnames[lr:]:
            d[key] = self.restval
    return d
    >> *)
Definition dict_row (fieldnames row : list pystr) : gmap Key Value :=
  let d := dict_zip fieldnames row in
  let lf := length fieldnames in
  let lr := length row in
  if lf <? lr then <[restkey := VList (skipn lf row)]> d
  else if lr <? lf then
    fold_left (fun d key => <[Some key := VNone]> d) (skipn lr fieldnames) d
  else d.

(** [row == []] *)
Definition is_blank (row : list pystr) : bool :=
  match row with
  | [] => true
  | _ :: _ => false
  end.

(** The dictionaries [csv.DictReader(infile)] yields: the first row gives the
    field names, blank rows after it are passed over, and a file without any
    row yields nothing. *)
Definition DictReader (rows : list (list pystr)) : list (gmap Key Value) :=
  match rows with
  | [] => []
  | fieldnames :: data =>
      List.map (dict_row fieldnames)
               (List.filter (fun row => negb (is_blank row)) data)
  end.

Inductive PyError : Type :=
| KeyError
| AttributeError.

Inductive result (A : Type) : Type :=
| Ok (a : A)
| Raise (e : PyError).
Arguments Ok {A} a.
Arguments Raise {A} e.

(** <<
    for row in reader:
        url = row['URL']
        if any(url.startswith(prefix) for prefix in allowed_prefixes):
            filtered_links.append(url)
    >>
    over the dictionaries the reader yields.  A row without the key raises
    [KeyError]; only a [str] has [startswith], and the list of prefixes is
    not empty, so any other value raises [AttributeError] at the first
    prefix.  An exception ends the cell. *)
Fixpoint read_loop (reader : list (gmap Key Value))
         (filtered_links : list pystr) : result (list pystr) :=
  match reader with
  | [] => Ok filtered_links
  | row :: reader' =>
      match row !! Some URL with
      | None => Raise KeyError
      | Some (VStr url) =>
          if is_allowed url then read_loop reader' (filtered_links ++ [url])
          else read_loop reader' filtered_links
      | Some VNone | Some (VList _) => Raise AttributeError
      end
  end.

(** The lists the loop can end with when it starts from [acc] instead of the
    empty list. *)
Definition prepend (acc : list pystr) (r : result (list pystr))
  : result (list pystr) :=
  match r with
  | Ok l => Ok (acc ++ l)
  | Raise e => Raise e
  end.

(** [row[:1]] of every row: the first field of each row that has one. *)
Definition first_fields (rows : list (list pystr)) : list pystr :=
  List.concat (List.map (firstn 1) rows).

(** The second cell, from the rows of [extracted_links.csv] to the rows it
    writes to [filtered_article_links.csv]. *)
Definition filter_cell (rows : list (list pystr))
  : result (list (list pystr)) :=
  match read_loop (DictReader rows) [] with
  | Ok filtered_links => Ok (write_rows filtered_links)
  | Raise e => Raise e
  end.

(** The first two cells in sequence, from the anchors of the entry page,
    when the reader yields the rows the writer was given. *)
Definition collect_and_filter (links : list Anchor)
  : result (list (list pystr)) :=
  filter_cell (write_rows (debug_all_links links)).

End Csv.

(** ** Runs of children between headings *)

Module Runs.
Import Scraper.

(** The segmentation loop started under a given heading with an empty
    accumulator, with the print after the loop. *)
Definition segment_from (cur : pystr) (children : list Element)
  : list Section :=
  let (out, st) :=
    run_loop {| current_section := cur; section_content := [] |} children in
  out ++ final_flush st.

(** The children split at the h2 elements: each run of non-heading children
    with the label in force while it is read. *)
Fixpoint runs (cur : pystr) (run : list Element) (children : list Element)
  : list (pystr * list Element) :=
  match children with
  | [] => [(cur, run)]
  | child :: children' =>
      if is_h2 child then (cur, run) :: runs (inner_text child) [] children'
      else runs cur (run ++ [child]) children'
  end.

(** The section a run gives rise to, if any. *)
Definition section_of_run (r : pystr * list Element) : list Section :=
  if existsb contributes (snd r)
  then [ {| heading := fst r; content := strip (run_content (snd r)) |} ]
  else [].

(** No character of [s] equals [c]. *)
Definition lacks (c : N) (s : pystr) : bool :=
  forallb (fun d => negb (N.eqb d c)) s.

End Runs.

(** ** What reaches the console *)

Module Console.
Import Scraper.






(** A child without visible text that holds one image. *)
Definition image_only_child : Element :=
  {| tag := lit "div"; inner_text := [32%N];
     img_elements := [None; Some (lit "x.png"); Some []] |}.

End Console.

(** * Properties *)

(** ** Strings *)

Module PyStrFacts.

Lemma startswith_app (prefix rest : pystr) :
  startswith (prefix ++ rest) prefix = true.
Proof.
  induction prefix as [|p prefix IH]; simpl.
  - reflexivity.
  - rewrite N.eqb_refl. exact IH.
Qed.

Lemma startswith_inv (prefix s : pystr) :
  startswith s prefix = true -> exists rest, s = prefix ++ rest.
Proof.
  revert s. induction prefix as [|p prefix IH]; intros s H.
  - exists s. reflexivity.
  - destruct s as [|c s]; simpl in H; [discriminate|].
    apply andb_true_iff in H as [Hc Hs].
    apply N.eqb_eq in Hc. destruct (IH s Hs) as [rest ->].
    exists rest. simpl. congruence.
Qed.

Lemma str_eqb_eq (s1 s2 : pystr) : str_eqb s1 s2 = true <-> s1 = s2.
Proof.
  revert s2. induction s1 as [|c1 s1 IH]; intros [|c2 s2]; simpl;
    try (split; [discriminate | congruence]); [tauto|].
  rewrite andb_true_iff, N.eqb_eq, IH. split.
  - intros [-> ->]. reflexivity.
  - intros E. injection E. tauto.
Qed.

(** *** [strip] *)

Lemma has_nonspace_app (s1 s2 : pystr) :
  has_nonspace (s1 ++ s2) = has_nonspace s1 || has_nonspace s2.
Proof. apply existsb_app. Qed.

Lemma has_nonspace_rev (s : pystr) : has_nonspace (rev s) = has_nonspace s.
Proof.
  induction s as [|c s IH]; simpl; trivial.
  rewrite has_nonspace_app, IH. simpl. rewrite orb_false_r. apply orb_comm.
Qed.

Lemma has_nonspace_lstrip (s : pystr) :
  has_nonspace (lstrip s) = has_nonspace s.
Proof.
  induction s as [|c s IH]; simpl; trivial.
  destruct (isspace c) eqn:E; simpl; [exact IH | rewrite E; reflexivity].
Qed.

Lemma truthy_lstrip (s : pystr) : truthy (lstrip s) = has_nonspace s.
Proof.
  induction s as [|c s IH]; simpl; trivial.
  destruct (isspace c); simpl; [exact IH | reflexivity].
Qed.

Lemma truthy_rev (s : pystr) : truthy (rev s) = truthy s.
Proof.
  destruct s as [|c s]; simpl; trivial.
  destruct (rev s); reflexivity.
Qed.

(** [if s.strip():] asks whether [s] has a character that is not white
    space. *)
Lemma truthy_strip (s : pystr) : truthy (strip s) = has_nonspace s.
Proof.
  unfold strip, rstrip.
  rewrite truthy_rev, truthy_lstrip, has_nonspace_rev.
  apply has_nonspace_lstrip.
Qed.

Lemma lstrip_head (s : pystr) :
  lstrip s = [] \/ exists c s', lstrip s = c :: s' /\ isspace c = false.
Proof.
  induction s as [|c s IH]; simpl; [left; reflexivity|].
  destruct (isspace c) eqn:E; [exact IH | right; eauto].
Qed.

Lemma lstrip_idem (s : pystr) : lstrip (lstrip s) = lstrip s.
Proof.
  destruct (lstrip_head s) as [->|(c & s' & -> & E)]; simpl; trivial.
  rewrite E. reflexivity.
Qed.

Lemma lstrip_snoc (s : pystr) (c : N) :
  isspace c = false -> lstrip (s ++ [c]) = lstrip s ++ [c].
Proof.
  intros E. induction s as [|d s IH]; simpl.
  - rewrite E. reflexivity.
  - destruct (isspace d); [exact IH | reflexivity].
Qed.

Lemma rstrip_cons (c : N) (s : pystr) :
  isspace c = false -> rstrip (c :: s) = c :: rstrip s.
Proof.
  intros E. unfold rstrip. simpl.
  rewrite lstrip_snoc by exact E. rewrite rev_app_distr. reflexivity.
Qed.

Lemma rstrip_idem (s : pystr) : rstrip (rstrip s) = rstrip s.
Proof. unfold rstrip. rewrite rev_involutive, lstrip_idem. reflexivity. Qed.

Lemma lstrip_strip (s : pystr) : lstrip (strip s) = strip s.
Proof.
  unfold strip.
  destruct (lstrip_head s) as [->|(c & s' & -> & E)]; [reflexivity|].
  rewrite rstrip_cons by exact E. simpl. rewrite E. reflexivity.
Qed.

Lemma strip_idem (s : pystr) : strip (strip s) = strip s.
Proof.
  unfold strip at 1. rewrite lstrip_strip.
  unfold strip. apply rstrip_idem.
Qed.

Lemma truthy_true (s : pystr) : truthy s = true <-> s <> [].
Proof. destruct s; simpl; split; congruence. Qed.

Lemma truthy_false (s : pystr) : truthy s = false <-> s = [].
Proof. destruct s; simpl; split; congruence. Qed.

End PyStrFacts.

(** ** Link Collector *)

Module CollectorFacts.
Import Collector.

Lemma href_loop_acc (links : list Anchor) (acc : list pystr) :
  href_loop links acc = acc ++ kept_hrefs links.
Proof.
  revert acc. induction links as [|link links IH]; intros acc; simpl.
  - symmetry. apply app_nil_r.
  - destruct (href link) as [[|c h]|]; simpl; rewrite IH; trivial.
    rewrite <- app_assoc. reflexivity.
Qed.

Lemma debug_all_links_kept (links : list Anchor) :
  debug_all_links links = kept_hrefs links.
Proof. unfold debug_all_links. rewrite href_loop_acc. reflexivity. Qed.

Lemma kept_hrefs_app (l1 l2 : list Anchor) :
  kept_hrefs (l1 ++ l2) = kept_hrefs l1 ++ kept_hrefs l2.
Proof.
  induction l1 as [|link l1 IH]; simpl; trivial.
  destruct (href link) as [[|c h]|]; simpl; rewrite ?IH; reflexivity.
Qed.

Lemma kept_hrefs_nonempty (links : list Anchor) : ~ In [] (kept_hrefs links).
Proof.
  induction links as [|link links IH]; simpl; [tauto|].
  destruct (href link) as [[|c h]|]; simpl; trivial.
  intros [E|H]; [discriminate | tauto].
Qed.

(** C10. The list returned by the link collector never contains the empty
    string; an anchor whose href is the empty string is skipped exactly
    like an anchor without href (both leave the result as if the anchor
    were not there), and an anchor with any other href contributes that
    href at its place in document order. *)
Theorem collector_skips_empty_href :
  (forall links, ~ In [] (debug_all_links links)) /\
  (forall before after,
      debug_all_links (before ++ {| href := Some [] |} :: after)
      = debug_all_links (before ++ after) /\
      debug_all_links (before ++ {| href := None |} :: after)
      = debug_all_links (before ++ after)) /\
  (forall before after c h,
      debug_all_links (before ++ {| href := Some (c :: h) |} :: after)
      = debug_all_links before ++ (c :: h) :: debug_all_links after).
Proof.
  repeat split; intros; rewrite ?debug_all_links_kept.
  - apply kept_hrefs_nonempty.
  - rewrite !kept_hrefs_app. reflexivity.
  - rewrite !kept_hrefs_app. reflexivity.
  - rewrite kept_hrefs_app. reflexivity.
Qed.

End CollectorFacts.

(** ** URL Filter *)

Module FilterFacts.
Import Filter PyStrFacts.

(** The accumulating loop computes a filter of its input. *)
Lemma filter_loop_acc (rows acc : list pystr) :
  filter_loop rows acc = acc ++ List.filter is_allowed rows.
Proof.
  revert acc. induction rows as [|url rows IH]; intros acc; simpl.
  - symmetry. apply app_nil_r.
  - destruct (is_allowed url); rewrite IH; trivial.
    rewrite <- app_assoc. reflexivity.
Qed.

Lemma filtered_links_filter (rows : list pystr) :
  filtered_links rows = List.filter is_allowed rows.
Proof. unfold filtered_links. rewrite filter_loop_acc. reflexivity. Qed.

Lemma is_allowed_prefix (url : pystr) :
  is_allowed url = true <->
  exists prefix rest, In prefix allowed_prefixes /\ url = prefix ++ rest.
Proof.
  unfold is_allowed. rewrite existsb_exists. split.
  - intros (prefix & Hin & Hsw). apply startswith_inv in Hsw as [rest ->].
    eauto.
  - intros (prefix & rest & Hin & ->). exists prefix.
    split; [assumption | apply startswith_app].
Qed.

Lemma filter_sublist {A} (f : A -> bool) (l : list A) :
  sublist (List.filter f l) l.
Proof.
  induction l as [|x l IH]; simpl.
  - constructor.
  - destruct (f x); now constructor.
Qed.

Lemma count_occ_filter (f : pystr -> bool) (l : list pystr) (x : pystr) :
  count_occ pystr_eq_dec (List.filter f l) x
  = if f x then count_occ pystr_eq_dec l x else 0.
Proof.
  induction l as [|y l IH]; simpl.
  - destruct (f x); reflexivity.
  - destruct (f y) eqn:Fy; simpl; destruct (pystr_eq_dec y x) as [->|Hne];
      rewrite IH; try reflexivity.
    + rewrite Fy. reflexivity.
    + rewrite Fy. reflexivity.
Qed.

Lemma example_filtered :
  filtered_links example_raw_links = [example_url; example_url].
Proof. vm_compute. reflexivity. Qed.

(** C1 (as stated, refuted). On the raw links of the first end-to-end
    example the filter's output holds the article URL twice: it is not
    duplicate-free and it is not the one-entry list. *)
Lemma filter_output_has_duplicates :
  ~ List.NoDup (filtered_links example_raw_links) /\
  filtered_links example_raw_links <> [example_url].
Proof.
  rewrite example_filtered. split.
  - intros H. inversion H as [|x l Hnin _]; subst.
    apply Hnin. left. reflexivity.
  - discriminate.
Qed.

(** C1 (amended). The filter removes no repeated entry: its output is free
    of duplicates whenever the input list is, and on the raw links of the
    first end-to-end example, where the article URL occurs twice, the
    output holds that URL twice. *)
Theorem filter_nodup_from_input (raw : list pystr) (Hraw : List.NoDup raw) :
  List.NoDup (filtered_links raw) /\
  filtered_links example_raw_links = [example_url; example_url].
Proof.
  split.
  - rewrite filtered_links_filter. apply List.NoDup_filter, Hraw.
  - apply example_filtered.
Qed.

Lemma filter_nodup_from_input_witness :
  List.NoDup (filtered_links [lit "/relative"; example_url]) /\
  filtered_links example_raw_links = [example_url; example_url].
Proof.
  apply (filter_nodup_from_input [lit "/relative"; example_url]).
  constructor.
  - intros [H|[]]. discriminate H.
  - constructor; [intros [] | constructor].
Defined.

(** C2. Every URL in the filter's output starts with one of the three
    allowlisted prefixes, a URL failing the prefix test is never in the
    output, and an input made of non-matching links only yields the empty
    list. *)
Theorem filter_output_prefixed (raw : list pystr) :
  (forall url, In url (filtered_links raw) ->
     exists prefix rest, In prefix allowed_prefixes /\ url = prefix ++ rest) /\
  (forall url, is_allowed url = false -> ~ In url (filtered_links raw)) /\
  (forallb (fun url => negb (is_allowed url)) raw = true ->
     filtered_links raw = []).
Proof.
  rewrite filtered_links_filter. repeat split.
  - intros url Hin. apply filter_In in Hin as [_ Hok].
    apply is_allowed_prefix, Hok.
  - intros url Hno Hin. apply filter_In in Hin as [_ Hok]. congruence.
  - induction raw as [|url raw IH]; simpl; trivial.
    intros H. apply andb_true_iff in H as [Hu Hr].
    destruct (is_allowed url); [discriminate | auto].
Qed.

Lemma filter_output_prefixed_witness :
  filtered_links [lit "/relative"; lit "javascript:void(0)"] = [].
Proof.
  apply (filter_output_prefixed [lit "/relative"; lit "javascript:void(0)"]).
  vm_compute. reflexivity.
Defined.

(** C7. Filtering the filter's own output gives back that output, with the
    same elements in the same order. *)
Theorem filter_idempotent (raw : list pystr) :
  filtered_links (filtered_links raw) = filtered_links raw.
Proof.
  rewrite !filtered_links_filter.
  apply forallb_filter_id, forallb_filter.
Qed.

(** C9. The filter's output is exactly the input entries that pass the
    prefix test, in their input order (a subsequence of the input), each as
    many times as it occurs in the input; an entry failing the test occurs
    zero times. *)
Theorem filter_is_matching_subsequence (raw : list pystr) :
  filtered_links raw = List.filter is_allowed raw /\
  sublist (filtered_links raw) raw /\
  (forall url,
      count_occ pystr_eq_dec (filtered_links raw) url
      = if is_allowed url then count_occ pystr_eq_dec raw url else 0).
Proof.
  rewrite filtered_links_filter. repeat split.
  - apply filter_sublist.
  - intros url. apply count_occ_filter.
Qed.

End FilterFacts.

(** ** Section Segmenter and Article Fetcher *)

Module ScraperFacts.
Import Scraper PyStrFacts.

(** *** The non-heading branch *)

Lemma img_loop_acc (imgs : list (option pystr)) (acc : pystr) :
  img_loop imgs acc = acc ++ image_pieces imgs.
Proof.
  revert acc. unfold image_pieces.
  induction imgs as [|src imgs IH]; intros acc; simpl.
  - symmetry. apply app_nil_r.
  - destruct src as [[|c src]|]; simpl; rewrite IH; trivial.
    rewrite <- app_assoc. reflexivity.
Qed.

Lemma loop_body_other (st : LoopState) (child : Element) :
  is_h2 child = false ->
  loop_body st child
  = ([], {| current_section := current_section st;
            section_content := section_content st ++ pieces child |}).
Proof.
  intros Hh. unfold loop_body, pieces, text_piece. rewrite Hh.
  rewrite img_loop_acc.
  destruct (truthy (strip (inner_text child)));
    rewrite <- ?app_assoc; reflexivity.
Qed.

Lemma has_nonspace_image_line (src : pystr) :
  has_nonspace (image_line src) = true.
Proof. reflexivity. Qed.

Lemma has_nonspace_image_pieces (imgs : list (option pystr)) :
  has_nonspace (image_pieces imgs) = existsb truthy_opt imgs.
Proof.
  unfold image_pieces. induction imgs as [|src imgs IH]; simpl; trivial.
  destruct (truthy_opt src); simpl; [reflexivity | exact IH].
Qed.

Lemma has_nonspace_text_piece (child : Element) :
  has_nonspace (text_piece child) = truthy (strip (inner_text child)).
Proof.
  unfold text_piece. destruct (truthy (strip (inner_text child))) eqn:E.
  - rewrite has_nonspace_app, <- truthy_strip, E. reflexivity.
  - reflexivity.
Qed.

Lemma has_nonspace_pieces (child : Element) :
  has_nonspace (pieces child) = contributes child.
Proof.
  unfold pieces, contributes.
  rewrite has_nonspace_app, has_nonspace_text_piece, has_nonspace_image_pieces.
  reflexivity.
Qed.

Lemma has_nonspace_run_content (run : list Element) :
  has_nonspace (run_content run) = existsb contributes run.
Proof.
  unfold run_content. induction run as [|c run IH]; simpl; trivial.
  rewrite has_nonspace_app, has_nonspace_pieces, IH. reflexivity.
Qed.

(** *** The loop *)

Lemma run_loop_app (st : LoopState) (l1 l2 : list Element) :
  run_loop st (l1 ++ l2)
  = let (out1, st1) := run_loop st l1 in
    let (out2, st2) := run_loop st1 l2 in
    (out1 ++ out2, st2).
Proof.
  revert st. induction l1 as [|c l1 IH]; intros st; simpl.
  - destruct (run_loop st l2). reflexivity.
  - destruct (loop_body st c) as [o st']. rewrite IH.
    destruct (run_loop st' l1) as [o1 st1].
    destruct (run_loop st1 l2) as [o2 st2].
    rewrite app_assoc. reflexivity.
Qed.

(** A run without headings prints nothing and only extends the content. *)
Lemma run_loop_no_heading (st : LoopState) (run : list Element) :
  no_h2 run = true ->
  run_loop st run
  = ([], {| current_section := current_section st;
            section_content := section_content st ++ run_content run |}).
Proof.
  revert st. unfold run_content, no_h2.
  induction run as [|c run IH]; intros st H; simpl.
  - rewrite app_nil_r. destruct st; reflexivity.
  - simpl in H. apply andb_true_iff in H as [Hc Hrun].
    apply negb_true_iff in Hc. rewrite (loop_body_other _ _ Hc).
    rewrite (IH _ Hrun). simpl. rewrite <- app_assoc. reflexivity.
Qed.

Lemma content_ok_initial : content_ok initial_state.
Proof. reflexivity. Qed.

Lemma content_ok_app (content piece : pystr) :
  has_nonspace content = truthy content ->
  has_nonspace piece = truthy piece ->
  has_nonspace (content ++ piece) = truthy (content ++ piece).
Proof.
  intros Hc Hp. rewrite has_nonspace_app, Hc.
  destruct content; simpl; [exact Hp | reflexivity].
Qed.

Lemma pieces_ok (child : Element) :
  has_nonspace (pieces child) = truthy (pieces child).
Proof.
  rewrite has_nonspace_pieces. unfold pieces, contributes, text_piece.
  destruct (truthy (strip (inner_text child))) eqn:E; simpl.
  - destruct (inner_text child); reflexivity.
  - unfold image_pieces.
    induction (img_elements child) as [|src imgs IH]; simpl; trivial.
    destruct (truthy_opt src); simpl; [reflexivity | exact IH].
Qed.

Lemma loop_body_content_ok (st : LoopState) (child : Element) :
  content_ok st -> content_ok (snd (loop_body st child)).
Proof.
  unfold content_ok. intros Hst. destruct (is_h2 child) eqn:Hh.
  - unfold loop_body. rewrite Hh.
    destruct (truthy (strip (section_content st))); simpl; trivial.
  - rewrite (loop_body_other _ _ Hh). simpl.
    apply content_ok_app; [exact Hst | apply pieces_ok].
Qed.

Lemma run_loop_content_ok (st : LoopState) (children : list Element) :
  content_ok st -> content_ok (snd (run_loop st children)).
Proof.
  revert st. induction children as [|c cs IH]; intros st Hst; simpl; trivial.
  pose proof (loop_body_content_ok st c Hst) as H1.
  destruct (loop_body st c) as [o st1]. simpl in H1.
  specialize (IH st1 H1). destruct (run_loop st1 cs) as [o' st2].
  exact IH.
Qed.

Lemma loop_body_heading (st : LoopState) (h : Element) :
  is_h2 h = true ->
  truthy (strip (section_content st)) = false ->
  loop_body st h
  = ([], {| current_section := inner_text h;
            section_content := section_content st |}).
Proof. intros Hh He. unfold loop_body. rewrite Hh, He. reflexivity. Qed.

(** After a heading the accumulator is empty. *)
Lemma after_heading (st : LoopState) (h : Element) :
  content_ok st -> is_h2 h = true ->
  snd (loop_body st h)
  = {| current_section := inner_text h; section_content := [] |}.
Proof.
  unfold content_ok. intros Hok Hh. unfold loop_body. rewrite Hh.
  rewrite truthy_strip, Hok.
  destruct (section_content st) eqn:E; reflexivity.
Qed.

Lemma run_loop_snoc (st : LoopState) (before : list Element) (h : Element) :
  snd (run_loop st (before ++ [h]))
  = snd (loop_body (snd (run_loop st before)) h).
Proof.
  rewrite run_loop_app. destruct (run_loop st before) as [o1 st1]. simpl.
  destruct (loop_body st1 h) as [o2 st2]. reflexivity.
Qed.

Lemma final_flush_run (cur : pystr) (run : list Element) :
  final_flush {| current_section := cur; section_content := run_content run |}
  = if existsb contributes run
    then [ {| heading := cur; content := strip (run_content run) |} ]
    else [].
Proof.
  unfold final_flush. simpl.
  rewrite truthy_strip, has_nonspace_run_content. reflexivity.
Qed.

(** *** Order of the emitted headings *)

Lemma run_loop_headings (st : LoopState) (children : list Element) :
  sublist
    (List.map heading (fst (run_loop st children))
       ++ [current_section (snd (run_loop st children))])
    (current_section st :: h2_texts children).
Proof.
  revert st. induction children as [|c cs IH]; intros st.
  - simpl. reflexivity.
  - simpl. specialize (IH (snd (loop_body st c))).
    unfold loop_body in *. unfold h2_texts in *. simpl.
    destruct (is_h2 c); simpl in *.
    + destruct (truthy (strip (section_content st))); simpl in *;
        destruct (run_loop _ cs) as [o' st2]; simpl in *.
      * apply sublist_skip. exact IH.
      * apply sublist_cons. exact IH.
    + destruct (run_loop _ cs) as [o' st2]; simpl in *. exact IH.
Qed.

Lemma segment_headings (children : list Element) :
  sublist (List.map heading (segment children))
          (intro_heading :: h2_texts children).
Proof.
  pose proof (run_loop_headings initial_state children) as H.
  unfold segment. destruct (run_loop initial_state children) as [out st].
  simpl in H. etransitivity; [|exact H].
  rewrite List.map_app. apply sublist_app; [reflexivity|].
  unfold final_flush. destruct (truthy _); simpl.
  - reflexivity.
  - apply sublist_nil_l.
Qed.

Lemma segment_no_heading (run : list Element) :
  no_h2 run = true ->
  segment run
  = if existsb contributes run
    then [ {| heading := intro_heading; content := strip (run_content run) |} ]
    else [].
Proof.
  intros H. unfold segment. rewrite (run_loop_no_heading _ _ H). simpl.
  apply final_flush_run.
Qed.

Lemma segment_after_last_heading (before : list Element) (h : Element)
      (tail : list Element) :
  is_h2 h = true -> no_h2 tail = true ->
  segment (before ++ h :: tail)
  = fst (run_loop initial_state (before ++ [h]))
    ++ if existsb contributes tail
       then [ {| heading := inner_text h; content := strip (run_content tail) |} ]
       else [].
Proof.
  intros Hh Htail. unfold segment.
  replace (before ++ h :: tail) with ((before ++ [h]) ++ tail)
    by (rewrite <- app_assoc; reflexivity).
  rewrite run_loop_app.
  pose proof (run_loop_snoc initial_state before h) as Hst.
  rewrite after_heading in Hst
    by (trivial; apply run_loop_content_ok, content_ok_initial).
  destruct (run_loop initial_state (before ++ [h])) as [o1 st1].
  simpl in Hst. subst st1.
  rewrite (run_loop_no_heading _ _ Htail). simpl.
  rewrite app_nil_r. f_equal. apply final_flush_run.
Qed.

(** C3. The headings of the emitted sections, in emission order, form a
    subsequence of the intro sentinel followed by the texts of the body's h2
    children in document order (so the intro section, when emitted, is
    first).  After the last child a final section is emitted exactly when
    some child after the last heading (or some child at all, when there is no
    heading) added text or an image line; it carries that last heading (or
    the intro sentinel). *)
Theorem segment_heading_order (children : list Element) :
  sublist (List.map heading (segment children))
          (intro_heading :: h2_texts children) /\
  (no_h2 children = true ->
   segment children
   = if existsb contributes children
     then [ {| heading := intro_heading;
               content := strip (run_content children) |} ]
     else []) /\
  (forall before h tail,
      children = before ++ h :: tail ->
      is_h2 h = true -> no_h2 tail = true ->
      segment children
      = fst (run_loop initial_state (before ++ [h]))
        ++ if existsb contributes tail
           then [ {| heading := inner_text h;
                     content := strip (run_content tail) |} ]
           else []).
Proof.
  split; [apply segment_headings|]. split.
  - apply segment_no_heading.
  - intros before h tail -> Hh Htail.
    apply segment_after_last_heading; assumption.
Qed.

Lemma segment_heading_order_witness :
  segment example_body
  = fst (run_loop initial_state (firstn 5 example_body))
    ++ [ {| heading := lit "FAQ"; content := lit "Q1" |} ].
Proof.
  apply (proj2 (proj2 (segment_heading_order example_body))
           (firstn 4 example_body)
           {| tag := lit "h2"; inner_text := lit "FAQ"; img_elements := [] |}
           [ {| tag := lit "p"; inner_text := lit "Q1"; img_elements := [] |} ]);
    reflexivity.
Defined.

(** The second end-to-end example of the specification. *)
Example segment_example_body :
  segment example_body
  = [ {| heading := intro_heading; content := lit "Intro text" |};
      {| heading := lit "Setup";
         content := lit "Step1" ++ newline ++ lit "[Image: x.png]" |};
      {| heading := lit "FAQ"; content := lit "Q1" |} ].
Proof. vm_compute. reflexivity. Qed.

(** *** What an emitted section looks like *)

Lemma h2_texts_cons (c : Element) (cs : list Element) :
  h2_texts (c :: cs)
  = if is_h2 c then inner_text c :: h2_texts cs else h2_texts cs.
Proof. unfold h2_texts. simpl. destruct (is_h2 c); reflexivity. Qed.

Lemma flushed_section (st : LoopState) (s : Section) :
  In s (final_flush st) ->
  heading s = current_section st /\
  content s <> [] /\ strip (content s) = content s.
Proof.
  unfold final_flush.
  destruct (truthy (strip (section_content st))) eqn:E; simpl; [|tauto].
  intros [<-|[]]. simpl. repeat split.
  - apply truthy_true, E.
  - apply strip_idem.
Qed.

Lemma emitted_section (st : LoopState) (children : list Element)
      (s : Section) :
  In s (fst (run_loop st children) ++ final_flush (snd (run_loop st children))) ->
  (heading s = current_section st \/ In (heading s) (h2_texts children)) /\
  content s <> [] /\ strip (content s) = content s.
Proof.
  revert st. induction children as [|c cs IH]; intros st; simpl.
  - intros H. apply flushed_section in H. tauto.
  - rewrite h2_texts_cons. specialize (IH (snd (loop_body st c))).
    destruct (is_h2 c) eqn:Hh.
    + unfold loop_body in *. rewrite Hh in *.
      destruct (truthy (strip (section_content st))) eqn:E; simpl in *;
        destruct (run_loop _ cs) as [o' st2]; simpl in *.
      * intros [<-|H]; simpl.
        -- repeat split; [tauto | apply truthy_true, E | apply strip_idem].
        -- destruct (IH H) as [[Eh|Hin] Hc]; (split; [|exact Hc]); auto.
      * intros H.
        destruct (IH H) as [[Eh|Hin] Hc]; (split; [|exact Hc]); auto.
    + rewrite (loop_body_other _ _ Hh) in *. simpl in *.
      destruct (run_loop _ cs) as [o' st2]. simpl in *. exact IH.
Qed.

Lemma segment_section (children : list Element) (s : Section) :
  In s (segment children) ->
  (heading s = intro_heading \/ In (heading s) (h2_texts children)) /\
  content s <> [] /\ strip (content s) = content s.
Proof.
  intros H. apply (emitted_section initial_state children s).
  unfold segment in H. destruct (run_loop initial_state children). exact H.
Qed.

(** *** Headings met with an empty accumulator *)

Lemma run_loop_two_headings (st : LoopState) (h1 h2 : Element)
      (rest : list Element) :
  is_h2 h1 = true -> is_h2 h2 = true ->
  run_loop st (h1 :: h2 :: rest) = run_loop st (h2 :: rest).
Proof.
  intros H1 H2. simpl. unfold loop_body. rewrite H1, H2.
  destruct (truthy (strip (section_content st))) eqn:E; simpl; rewrite ?E;
    destruct (run_loop _ rest); reflexivity.
Qed.

(** C4. No emitted section has empty content.  A heading met while the
    accumulator is empty prints nothing and only replaces the heading label;
    so a body that starts with a heading is segmented as if the loop had
    started with that heading's label (no intro section), and a heading
    directly followed by another heading leaves no trace in the output. *)
Theorem no_empty_section :
  (forall children s, In s (segment children) -> content s <> []) /\
  (forall st h,
      is_h2 h = true -> section_content st = [] ->
      loop_body st h
      = ([], {| current_section := inner_text h; section_content := [] |})) /\
  (forall h rest,
      is_h2 h = true ->
      segment (h :: rest)
      = let (out, st) :=
          run_loop {| current_section := inner_text h;
                      section_content := [] |} rest in
        out ++ final_flush st) /\
  (forall before h1 h2 rest,
      is_h2 h1 = true -> is_h2 h2 = true ->
      segment (before ++ h1 :: h2 :: rest) = segment (before ++ h2 :: rest)).
Proof.
  repeat split.
  - intros children s H. apply segment_section in H. tauto.
  - intros st h Hh He.
    rewrite (loop_body_heading st h Hh) by (rewrite He; reflexivity).
    rewrite He. reflexivity.
  - intros h rest Hh. unfold segment. simpl.
    rewrite (loop_body_heading initial_state h Hh) by reflexivity.
    simpl. destruct (run_loop _ rest). reflexivity.
  - intros before h1 h2 rest H1 H2. unfold segment.
    rewrite !run_loop_app. destruct (run_loop initial_state before) as [o st].
    rewrite (run_loop_two_headings st h1 h2 rest H1 H2). reflexivity.
Qed.

Lemma no_empty_section_witness :
  segment
    [ {| tag := lit "h2"; inner_text := lit "Setup"; img_elements := [] |};
      {| tag := lit "h2"; inner_text := lit "FAQ"; img_elements := [] |};
      {| tag := lit "p"; inner_text := lit "Q1"; img_elements := [] |} ]
  = segment (skipn 4 example_body).
Proof.
  apply (proj2 (proj2 (proj2 no_empty_section)) []
           {| tag := lit "h2"; inner_text := lit "Setup"; img_elements := [] |}
           {| tag := lit "h2"; inner_text := lit "FAQ"; img_elements := [] |}
           [ {| tag := lit "p"; inner_text := lit "Q1"; img_elements := [] |} ]);
    reflexivity.
Defined.

(** *** Strings of the emitted sections *)

Lemma h2_texts_In (children : list Element) (x : pystr) :
  In x (h2_texts children) ->
  exists h, In h children /\ is_h2 h = true /\ x = inner_text h.
Proof.
  unfold h2_texts. intros H. apply in_map_iff in H as (h & <- & Hin).
  apply filter_In in Hin as [Hin Hh]. eauto.
Qed.

(** C8 (as stated, refuted). For a heading whose visible text starts with a
    no-break space the emitted section carries the text as read, which is not
    its trimmed form. *)
Lemma heading_not_trimmed :
  segment nbsp_body
  = [ {| heading := 160%N :: lit "Setup"; content := lit "Step1" |} ] /\
  strip (160%N :: lit "Setup") = lit "Setup" /\
  ~ (forall s, In s (segment nbsp_body) ->
       heading s = intro_heading \/
       exists h, In h nbsp_body /\ is_h2 h = true /\
                 heading s = strip (inner_text h)).
Proof.
  split; [vm_compute; reflexivity|]. split; [vm_compute; reflexivity|].
  intros H.
  destruct (H {| heading := 160%N :: lit "Setup"; content := lit "Step1" |})
    as [E|(h & Hin & Hh & E)].
  - vm_compute. left. reflexivity.
  - vm_compute in E. discriminate E.
  - destruct Hin as [<-|[<-|[]]]; vm_compute in E, Hh; discriminate.
Qed.

(** C8 (amended). The heading of an emitted section is the intro sentinel or
    the visible text of an h2 child exactly as read (not trimmed); the
    section's content as a whole is non-empty and trimmed at both ends; a
    text element's visible text is added to the content as read, followed by
    a newline, and only when it is non-empty after trimming. *)
Theorem emitted_strings (children : list Element) (s : Section)
        (Hs : In s (segment children)) :
  (heading s = intro_heading \/
   exists h, In h children /\ is_h2 h = true /\ heading s = inner_text h) /\
  content s <> [] /\
  strip (content s) = content s /\
  (forall st child,
      is_h2 child = false ->
      section_content (snd (loop_body st child))
      = section_content st
          ++ (if truthy (strip (inner_text child))
              then inner_text child ++ newline else [])
          ++ image_pieces (img_elements child)).
Proof.
  apply segment_section in Hs as ([Hi|Hh] & Hne & Htrim).
  - repeat split; auto.
    intros st child Hc. rewrite (loop_body_other st child Hc). reflexivity.
  - repeat split; auto using h2_texts_In.
    intros st child Hc. rewrite (loop_body_other st child Hc). reflexivity.
Qed.

Lemma emitted_strings_witness :
  content {| heading := lit "FAQ"; content := lit "Q1" |} <> [].
Proof.
  apply (emitted_strings example_body
           {| heading := lit "FAQ"; content := lit "Q1" |}).
  vm_compute. right. right. left. reflexivity.
Defined.

(** *** Missing body container *)

Lemma print_section_not_no_body (s : Section) : print_section s <> no_body.
Proof. unfold print_section. cbn. discriminate. Qed.

Lemma no_body_not_printed (sections : list Section) :
  ~ In no_body (List.map print_section sections).
Proof.
  intros H. apply in_map_iff in H as (s & E & _).
  exact (print_section_not_no_body s E).
Qed.

End ScraperFacts.

(** * Further properties *)

(** ** Link Collector: membership, count and order *)

Module CollectorLaws.
Import Collector CollectorFacts.

Lemma kept_hrefs_In (links : list Anchor) (h : pystr) :
  In h (kept_hrefs links) <->
  h <> [] /\ exists link, In link links /\ href link = Some h.
Proof.
  induction links as [|link links IH]; simpl.
  - split; [tauto | intros (_ & l & [] & _)].
  - destruct (href link) as [[|c t]|] eqn:E; simpl; rewrite ?IH; split.
    + intros (Hne & l & Hin & Hl). eauto.
    + intros (Hne & l & [<-|Hin] & Hl); [congruence | eauto].
    + intros [<-|(Hne & l & Hin & Hl)]; [split; [discriminate|] |]; eauto.
    + intros (Hne & l & [<-|Hin] & Hl); [left; congruence | eauto].
    + intros (Hne & l & Hin & Hl). eauto.
    + intros (Hne & l & [<-|Hin] & Hl); [congruence | eauto].
Qed.

(** X1. A string is among the collected hrefs exactly when it is non-empty
    and is the href of some anchor of the page. *)
Theorem collected_iff_href_of_anchor (links : list Anchor) (h : pystr) :
  In h (debug_all_links links) <->
  h <> [] /\ exists link, In link links /\ href link = Some h.
Proof. rewrite debug_all_links_kept. apply kept_hrefs_In. Qed.

Lemma kept_hrefs_length (links : list Anchor) :
  length (kept_hrefs links) <= length links.
Proof.
  induction links as [|link links IH]; simpl; [lia|].
  destruct (href link) as [[|c t]|]; simpl; lia.
Qed.

(** X2. The collector returns at most one href per anchor, so the count of
    anchors it prints bounds the count of links it saves; the two counts
    agree exactly when every anchor has a non-empty href. *)
Theorem collected_count (links : list Anchor) :
  length (debug_all_links links) <= length links /\
  (length (debug_all_links links) = length links <->
   forallb (fun link => truthy_opt (href link)) links = true).
Proof.
  rewrite debug_all_links_kept. split; [apply kept_hrefs_length|].
  induction links as [|link links IH]; simpl; [tauto|].
  pose proof (kept_hrefs_length links) as Hle.
  destruct (href link) as [[|c t]|]; simpl.
  - split; [lia | discriminate].
  - rewrite <- IH. split; lia.
  - split; [lia | discriminate].
Qed.

(** X3. The collected hrefs keep the document order of their anchors: they
    are a subsequence of the anchors' href attributes. *)
Theorem collected_in_document_order (links : list Anchor) :
  sublist (List.map Some (debug_all_links links)) (List.map href links).
Proof.
  rewrite debug_all_links_kept.
  induction links as [|link links IH]; simpl; [constructor|].
  destruct (href link) as [[|c t]|]; simpl; now constructor.
Qed.

End CollectorLaws.

(** ** URL Filter: batches, fixed points and extension *)

Module FilterLaws.
Import Filter PyStrFacts FilterFacts.

(** X4. Filtering a concatenation is concatenating the filtered parts: the
    decision on a link does not depend on the links around it. *)
Theorem filtered_links_app (raw1 raw2 : list pystr) :
  filtered_links (raw1 ++ raw2) = filtered_links raw1 ++ filtered_links raw2.
Proof. rewrite !filtered_links_filter. apply List.filter_app. Qed.

Lemma filter_fixed {A} (f : A -> bool) (l : list A) :
  List.filter f l = l <-> forallb f l = true.
Proof.
  split.
  - intros E. rewrite <- E. apply forallb_filter.
  - apply forallb_filter_id.
Qed.

Lemma filter_shorter {A} (f : A -> bool) (l : list A) :
  length (List.filter f l) <= length l.
Proof.
  induction l as [|x l IH]; simpl; [lia|]. destruct (f x); simpl; lia.
Qed.

(** X5. The filter never returns more links than it was given, and it
    returns its input unchanged exactly when every link passes the prefix
    test. *)
Theorem filtered_links_fixed_point (raw : list pystr) :
  length (filtered_links raw) <= length raw /\
  (filtered_links raw = raw <-> forallb is_allowed raw = true).
Proof.
  rewrite filtered_links_filter. split.
  - apply filter_shorter.
  - apply filter_fixed.
Qed.

(** X6. Acceptance looks at the start of a link only: whatever is appended
    to an accepted link (a query string, a fragment, a trailing slash), the
    result is accepted too. *)
Theorem is_allowed_extension (url suffix : pystr) :
  is_allowed url = true -> is_allowed (url ++ suffix) = true.
Proof.
  rewrite !is_allowed_prefix. intros (prefix & rest & Hin & ->).
  exists prefix, (rest ++ suffix). split; [exact Hin|].
  symmetry. apply app_assoc.
Qed.

Lemma is_allowed_extension_witness :
  is_allowed (example_url ++ lit "?page=2#top") = true.
Proof. apply (is_allowed_extension example_url). reflexivity. Defined.

End FilterLaws.

(** ** The CSV file between the first two cells *)

Module CsvFacts.
Import Collector Filter Csv.
Import CollectorFacts FilterFacts.

(** *** Looking up a column in a row dictionary *)

Lemma fold_fields_other (pairs : list (pystr * pystr)) (d : gmap Key Value)
      (k : pystr) :
  ~ In k (List.map fst pairs) ->
  fold_left (fun d kv => <[Some (fst kv) := VStr (snd kv)]> d) pairs d
    !! Some k
  = d !! Some k.
Proof.
  revert d. induction pairs as [|[k' v] pairs IH]; intros d Hk; simpl in *.
  - reflexivity.
  - rewrite IH by tauto. apply lookup_insert_ne. intros E. apply Hk. left.
    congruence.
Qed.

Lemma fold_restval_other (keys : list pystr) (d : gmap Key Value)
      (k : pystr) :
  ~ In k keys ->
  fold_left (fun d key => <[Some key := VNone]> d) keys d !! Some k
  = d !! Some k.
Proof.
  revert d. induction keys as [|k' keys IH]; intros d Hk; simpl in *.
  - reflexivity.
  - rewrite IH by tauto. apply lookup_insert_ne. intros E. apply Hk. left.
    congruence.
Qed.

Lemma In_skipn {A} (n : nat) (l : list A) (x : A) :
  In x (skipn n l) -> In x l.
Proof.
  revert l. induction n as [|n IH]; intros [|y l]; simpl; auto.
Qed.

Lemma In_combine_fst (l1 l2 : list pystr) (k : pystr) :
  In k (List.map fst (combine l1 l2)) -> In k l1.
Proof.
  intros H. apply in_map_iff in H as ([k' v] & <- & Hin).
  exact (in_combine_l _ _ _ _ Hin).
Qed.

Lemma dict_zip_other (fieldnames row : list pystr) (k : pystr) :
  ~ In k fieldnames -> dict_zip fieldnames row !! Some k = None.
Proof.
  intros Hk. unfold dict_zip. rewrite fold_fields_other.
  - apply lookup_empty.
  - intros H. apply Hk. exact (In_combine_fst _ _ _ H).
Qed.

(** A name that is no field name is no key of the row. *)
Lemma dict_row_missing (fieldnames row : list pystr) (k : pystr) :
  ~ In k fieldnames -> dict_row fieldnames row !! Some k = None.
Proof.
  intros Hk. unfold dict_row.
  destruct (length fieldnames <? length row).
  - unfold restkey. rewrite lookup_insert_ne by discriminate.
    apply dict_zip_other, Hk.
  - destruct (length row <? length fieldnames).
    + rewrite fold_restval_other.
      * apply dict_zip_other, Hk.
      * intros H. apply Hk. exact (In_skipn _ _ _ H).
    + apply dict_zip_other, Hk.
Qed.

(** The first column, when no other column has its name, holds the first
    field of the row. *)
Lemma dict_row_first (k : pystr) (others : list pystr) (u : pystr)
      (fields : list pystr) :
  ~ In k others ->
  dict_row (k :: others) (u :: fields) !! Some k = Some (VStr u).
Proof.
  intros Hk.
  assert (Hzip : dict_zip (k :: others) (u :: fields) !! Some k
                 = Some (VStr u)).
  { unfold dict_zip. simpl. rewrite fold_fields_other.
    - apply lookup_insert_eq.
    - intros H. apply Hk. exact (In_combine_fst _ _ _ H). }
  unfold dict_row.
  destruct (length (k :: others) <? length (u :: fields)).
  - unfold restkey. rewrite lookup_insert_ne by discriminate. exact Hzip.
  - destruct (length (u :: fields) <? length (k :: others)); [|exact Hzip].
    rewrite fold_restval_other; [exact Hzip|].
    simpl. intros H. apply Hk. exact (In_skipn _ _ _ H).
Qed.

(** The last column of a row that stops before it holds [restval]. *)
Lemma dict_row_short (before : list pystr) (k : pystr) (row : list pystr) :
  length row <= length before ->
  dict_row (before ++ [k]) row !! Some k = Some VNone.
Proof.
  intros Hlen. unfold dict_row. rewrite length_app. simpl.
  destruct (length before + 1 <? length row) eqn:E1;
    [apply Nat.ltb_lt in E1; lia|].
  destruct (length row <? length before + 1) eqn:E2;
    [|apply Nat.ltb_ge in E2; lia].
  rewrite skipn_app.
  replace (length row - length before) with 0 by lia. simpl.
  rewrite fold_left_app. simpl. apply lookup_insert_eq.
Qed.

(** *** The reading loop *)

Lemma read_loop_acc (reader : list (gmap Key Value)) (acc : list pystr) :
  read_loop reader acc = prepend acc (read_loop reader []).
Proof.
  revert acc. induction reader as [|row reader IH]; intros acc; simpl.
  - rewrite app_nil_r. reflexivity.
  - destruct (row !! Some URL) as [[url| |l]|]; trivial.
    destruct (is_allowed url); [|apply IH].
    rewrite (IH (acc ++ [url])), (IH [url]).
    destruct (read_loop reader []); simpl; trivial.
    rewrite <- app_assoc. reflexivity.
Qed.

Lemma read_first_column (others : list pystr) (rows : list (list pystr)) :
  ~ In URL others ->
  read_loop (DictReader ((URL :: others) :: rows)) []
  = Ok (filtered_links (first_fields rows)).
Proof.
  intros Hothers. rewrite filtered_links_filter. unfold first_fields. simpl.
  induction rows as [|[|u fields] rows IH]; simpl; trivial.
  rewrite (dict_row_first URL others u fields Hothers).
  destruct (is_allowed u); [|exact IH].
  rewrite read_loop_acc, IH. reflexivity.
Qed.

(** X7. When URL is the first column and no other column has that name, the
    second cell ends without an exception and writes the header followed by
    the links that pass the prefix test among the first fields of the data
    rows, in file order; further columns, surplus fields and blank rows play
    no part. *)
Theorem url_first_column (others : list pystr) (rows : list (list pystr)) :
  ~ In URL others ->
  filter_cell ((URL :: others) :: rows)
  = Ok (write_rows (filtered_links (first_fields rows))).
Proof.
  intros Hothers. unfold filter_cell.
  rewrite (read_first_column others rows Hothers). reflexivity.
Qed.

Lemma url_first_column_witness :
  filter_cell
    [ [URL; lit "Title"];
      [example_url; lit "X"; lit "surplus"];
      [];
      [lit "/relative"] ]
  = Ok [ [URL]; [example_url] ].
Proof.
  apply (url_first_column [lit "Title"]
           [ [example_url; lit "X"; lit "surplus"]; []; [lit "/relative"] ]).
  intros [E|[]]. discriminate E.
Defined.

(** X8. When the header row has no URL column, the second cell raises
    KeyError as soon as there is a data row that is not blank, and writes
    nothing. *)
Theorem missing_url_column (fieldnames : list pystr)
        (data : list (list pystr)) :
  ~ In URL fieldnames ->
  existsb (fun row => negb (is_blank row)) data = true ->
  filter_cell (fieldnames :: data) = Raise KeyError.
Proof.
  intros Hcol Hrow. unfold filter_cell. simpl.
  induction data as [|[|u fields] data IH]; simpl in *.
  - discriminate.
  - exact (IH Hrow).
  - rewrite (dict_row_missing fieldnames (u :: fields) URL Hcol).
    reflexivity.
Qed.

Lemma missing_url_column_witness :
  filter_cell [ [lit "Link"]; [example_url] ] = Raise KeyError.
Proof.
  apply (missing_url_column [lit "Link"] [ [example_url] ]).
  - intros [E|[]]. discriminate E.
  - reflexivity.
Defined.

(** X9. A file without data rows (no row at all, a header only, or a header
    followed by blank rows) makes the second cell write the header row alone,
    whatever the header of the input is. *)
Theorem no_data_rows (rows : list (list pystr)) :
  forallb is_blank (tl rows) = true ->
  filter_cell rows = Ok [ [URL] ].
Proof.
  destruct rows as [|fieldnames data]; [reflexivity|]. simpl.
  intros Hblank. unfold filter_cell. simpl.
  replace (List.filter (fun row => negb (is_blank row)) data) with
    (@nil (list pystr)); [reflexivity|].
  induction data as [|[|u fields] data IH]; simpl in *; auto.
  discriminate.
Qed.

Lemma no_data_rows_witness :
  filter_cell [ [lit "Link"]; []; [] ] = Ok [ [URL] ].
Proof. apply (no_data_rows [ [lit "Link"]; []; [] ]). reflexivity. Defined.

(** X10. A blank row after the header is passed over: the second cell gives
    the same result with and without it. *)
Theorem blank_row_ignored (fieldnames : list pystr)
        (before after : list (list pystr)) :
  filter_cell (fieldnames :: before ++ [] :: after)
  = filter_cell (fieldnames :: before ++ after).
Proof.
  unfold filter_cell. simpl. rewrite !List.filter_app. reflexivity.
Qed.

(** X11. When URL is the last column and the first data row is not blank
    but stops before that column, the value read is None and the prefix test
    raises AttributeError. *)
Theorem short_row_raises (before row : list pystr)
        (rest : list (list pystr)) :
  row <> [] -> length row <= length before ->
  filter_cell ((before ++ [URL]) :: row :: rest) = Raise AttributeError.
Proof.
  intros Hrow Hlen. unfold filter_cell. simpl.
  destruct row as [|u fields]; [congruence|]. simpl.
  rewrite (dict_row_short before URL (u :: fields) Hlen). reflexivity.
Qed.

Lemma short_row_raises_witness :
  filter_cell [ [lit "Title"; URL]; [lit "X"] ] = Raise AttributeError.
Proof.
  apply (short_row_raises [lit "Title"] [lit "X"] []).
  - discriminate.
  - simpl. lia.
Defined.

(** X12. The first two cells in sequence: from the anchors of the entry
    page, through the file written by the first cell, the second cell ends
    without an exception and writes the header followed by one single-field
    row per collected link that passes the prefix test, in document order; a
    string is written exactly when it passes the test and is the href of
    some anchor. *)
Theorem collect_and_filter_rows (links : list Anchor) :
  collect_and_filter links
  = Ok (write_rows (filtered_links (debug_all_links links))) /\
  (forall u,
      In u (filtered_links (debug_all_links links)) <->
      is_allowed u = true /\
      exists link, In link links /\ href link = Some u).
Proof.
  split.
  - unfold collect_and_filter, filter_cell, write_rows at 1.
    rewrite (read_first_column [] _ (fun H => H)).
    do 3 f_equal. unfold first_fields.
    induction (debug_all_links links) as [|h hs IH]; simpl; congruence.
  - intros u. rewrite filtered_links_filter, filter_In.
    rewrite debug_all_links_kept, CollectorLaws.kept_hrefs_In.
    split.
    + intros ((Hne & Hlink) & Hok). auto.
    + intros (Hok & Hlink). repeat split; auto.
      intros ->. discriminate Hok.
Qed.

End CsvFacts.

(** ** Section Segmenter: runs between headings *)

Module SegmenterLaws.
Import Scraper Runs PyStrFacts ScraperFacts.

Lemma run_content_ok (run : list Element) :
  has_nonspace (run_content run) = truthy (run_content run).
Proof.
  unfold run_content. induction run as [|c run IH]; simpl; trivial.
  apply content_ok_app; [apply pieces_ok | exact IH].
Qed.

Lemma run_content_snoc (run : list Element) (c : Element) :
  run_content (run ++ [c]) = run_content run ++ pieces c.
Proof.
  unfold run_content. rewrite List.map_app, concat_app. simpl.
  rewrite app_nil_r. reflexivity.
Qed.

Lemma pieces_nil (c : Element) : contributes c = false <-> pieces c = [].
Proof.
  rewrite <- has_nonspace_pieces, pieces_ok. apply truthy_false.
Qed.

(** A heading closes the section before it just as the end of the body
    would, and leaves the accumulator empty. *)
Lemma heading_flushes (st : LoopState) (h : Element) :
  content_ok st -> is_h2 h = true ->
  loop_body st h
  = (final_flush st,
     {| current_section := inner_text h; section_content := [] |}).
Proof.
  unfold content_ok. intros Hok Hh. unfold loop_body, final_flush.
  rewrite Hh. destruct (truthy (strip (section_content st))) eqn:E; trivial.
  rewrite truthy_strip, Hok in E. apply truthy_false in E. rewrite E.
  reflexivity.
Qed.

(** The loop seen from a state whose accumulator holds the content of the
    run read so far. *)
Lemma run_loop_runs (cur : pystr) (run children : list Element) :
  (let (out, st) :=
     run_loop {| current_section := cur;
                 section_content := run_content run |} children in
   out ++ final_flush st)
  = flat_map section_of_run (runs cur run children).
Proof.
  revert cur run. induction children as [|c cs IH]; intros cur run; simpl.
  - rewrite final_flush_run, app_nil_r. reflexivity.
  - destruct (is_h2 c) eqn:Hh.
    + rewrite heading_flushes by (trivial; apply run_content_ok).
      specialize (IH (inner_text c) []). simpl in IH.
      change (run_content []) with (@nil N) in IH.
      destruct (run_loop _ cs) as [out st].
      rewrite <- app_assoc, IH, final_flush_run. reflexivity.
    + rewrite (loop_body_other _ _ Hh). simpl.
      rewrite <- run_content_snoc. rewrite <- IH.
      destruct (run_loop _ cs) as [out st]. reflexivity.
Qed.

Lemma runs_labels (cur : pystr) (run children : list Element) :
  List.map fst (runs cur run children) = cur :: h2_texts children.
Proof.
  revert cur run. induction children as [|c cs IH]; intros cur run; simpl.
  - reflexivity.
  - rewrite h2_texts_cons. destruct (is_h2 c); simpl; rewrite IH; reflexivity.
Qed.

Lemma runs_concat (cur : pystr) (run children : list Element) :
  List.concat (List.map snd (runs cur run children))
  = run ++ List.filter (fun c => negb (is_h2 c)) children.
Proof.
  revert cur run. induction children as [|c cs IH]; intros cur run; simpl.
  - reflexivity.
  - destruct (is_h2 c); simpl; rewrite IH; simpl; trivial.
    rewrite <- app_assoc. reflexivity.
Qed.

Lemma segment_from_heading (cur : pystr) (before : list Element)
      (h : Element) (rest : list Element) :
  is_h2 h = true ->
  segment_from cur (before ++ h :: rest)
  = segment_from cur before ++ segment_from (inner_text h) rest.
Proof.
  intros Hh. unfold segment_from. rewrite run_loop_app.
  pose proof (run_loop_content_ok
                {| current_section := cur; section_content := [] |} before
                eq_refl) as Hok.
  destruct (run_loop _ before) as [o1 st1]. simpl in Hok. simpl.
  rewrite (heading_flushes st1 h Hok Hh).
  destruct (run_loop _ rest) as [o2 st2].
  rewrite <- !app_assoc. reflexivity.
Qed.

(** X13. A heading splits the segmentation in two independent parts: the
    sections of a body are those of the children before the heading, as if
    the body ended there, followed by those of the children after it, read
    under that heading's label from an empty accumulator. *)
Theorem segment_splits_at_heading (before : list Element) (h : Element)
        (rest : list Element) :
  is_h2 h = true ->
  segment (before ++ h :: rest)
  = segment before ++ segment_from (inner_text h) rest /\
  forall cur,
    segment_from cur (before ++ h :: rest)
    = segment_from cur before ++ segment_from (inner_text h) rest.
Proof.
  intros Hh. split.
  - exact (segment_from_heading intro_heading before h rest Hh).
  - intros cur. exact (segment_from_heading cur before h rest Hh).
Qed.

Lemma segment_splits_at_heading_witness :
  segment example_body
  = segment (firstn 1 example_body)
    ++ segment_from (lit "Setup") (skipn 2 example_body).
Proof.
  apply (segment_splits_at_heading (firstn 1 example_body)
           {| tag := lit "h2"; inner_text := lit "Setup"; img_elements := [] |}
           (skipn 2 example_body)).
  reflexivity.
Defined.

(** X14. The segmenter computes the following: split the children at the h2
    elements into runs, labelled by the intro sentinel and then by the h2
    texts in document order; each run in which some child has visible text or
    an image with a src gives one section, whose content is the run's lines
    stripped as a whole; the other runs give nothing. *)
Theorem segment_by_runs (children : list Element) :
  segment children
  = flat_map section_of_run (runs intro_heading [] children) /\
  List.map fst (runs intro_heading [] children)
  = intro_heading :: h2_texts children /\
  List.concat (List.map snd (runs intro_heading [] children))
  = List.filter (fun c => negb (is_h2 c)) children.
Proof.
  split; [|split].
  - exact (run_loop_runs intro_heading [] children).
  - apply runs_labels.
  - apply (runs_concat intro_heading []).
Qed.

(** *** Bodies that print no section *)

Lemma app_nil_iff {A} (l1 l2 : list A) :
  l1 ++ l2 = [] <-> l1 = [] /\ l2 = [].
Proof.
  split.
  - apply app_eq_nil.
  - intros [-> ->]. reflexivity.
Qed.

Lemma final_flush_nil (st : LoopState) :
  content_ok st -> (final_flush st = [] <-> section_content st = []).
Proof.
  unfold content_ok, final_flush. intros Hok. rewrite truthy_strip, Hok.
  destruct (section_content st); simpl; split; congruence.
Qed.

Lemma loop_silent (st : LoopState) (children : list Element) :
  content_ok st ->
  fst (run_loop st children) ++ final_flush (snd (run_loop st children)) = []
  <->
  section_content st = [] /\
  existsb (fun c => negb (is_h2 c) && contributes c) children = false.
Proof.
  revert st. induction children as [|c cs IH]; intros st Hok; simpl.
  - rewrite (final_flush_nil st Hok). tauto.
  - destruct (is_h2 c) eqn:Hh; simpl.
    + rewrite (heading_flushes st c Hok Hh).
      specialize (IH {| current_section := inner_text c;
                        section_content := [] |} eq_refl).
      destruct (run_loop _ cs) as [o st2]. simpl in *.
      rewrite <- app_assoc, app_nil_iff, IH, (final_flush_nil st Hok).
      tauto.
    + rewrite (loop_body_other st c Hh).
      specialize (IH {| current_section := current_section st;
                        section_content := section_content st ++ pieces c |}).
      destruct (run_loop _ cs) as [o st2]. simpl in *.
      rewrite IH by (apply content_ok_app; [exact Hok | apply pieces_ok]).
      pose proof (app_nil_iff (section_content st) (pieces c)) as Happ.
      pose proof (pieces_nil c) as Hp.
      rewrite orb_false_iff. tauto.
Qed.

(** X15. Nothing is printed for a body exactly when none of its non-heading
    children has visible text or an image with a non-empty src; headings
    alone, however many, give no section. *)
Theorem segment_nil_iff (children : list Element) :
  segment children = [] <->
  existsb (fun c => negb (is_h2 c) && contributes c) children = false.
Proof.
  pose proof (loop_silent initial_state children eq_refl) as H.
  unfold segment. destruct (run_loop initial_state children) as [o st].
  simpl in H. rewrite H. simpl. tauto.
Qed.

(** X16. A body with n h2 children gives at most n + 1 sections. *)
Theorem segment_count (children : list Element) :
  length (segment children) <= S (length (List.filter is_h2 children)).
Proof.
  pose proof (sublist_length _ _ (segment_headings children)) as H.
  rewrite List.length_map in H. simpl in H. unfold h2_texts in H.
  rewrite List.length_map in H. exact H.
Qed.

(** X17. A non-heading child without visible text and without an image that
    has a src leaves no trace: the sections are the same with and without
    it. *)
Theorem invisible_child_ignored (before : list Element) (c : Element)
        (after : list Element) :
  is_h2 c = false -> contributes c = false ->
  segment (before ++ c :: after) = segment (before ++ after).
Proof.
  intros Hh Hc. unfold segment. rewrite !run_loop_app.
  destruct (run_loop initial_state before) as [o st]. simpl.
  rewrite (loop_body_other st c Hh).
  apply pieces_nil in Hc. rewrite Hc, app_nil_r.
  destruct st as [cur content]. simpl.
  destruct (run_loop _ after) as [o' st']. reflexivity.
Qed.

Lemma invisible_child_ignored_witness :
  segment (firstn 1 example_body
             ++ {| tag := lit "p"; inner_text := [32%N; 160%N];
                   img_elements := [None; Some []] |}
             :: skipn 1 example_body)
  = segment (firstn 1 example_body ++ skipn 1 example_body).
Proof.
  apply (invisible_child_ignored (firstn 1 example_body)
           {| tag := lit "p"; inner_text := [32%N; 160%N];
              img_elements := [None; Some []] |}
           (skipn 1 example_body)); reflexivity.
Defined.

(** X18. The images inside an h2 element are never reported: the sections do
    not depend on them. *)
Theorem heading_images_ignored (before : list Element) (h : Element)
        (imgs : list (option pystr)) (after : list Element) :
  is_h2 h = true ->
  segment (before ++ h :: after)
  = segment (before ++ {| tag := tag h; inner_text := inner_text h;
                          img_elements := imgs |} :: after).
Proof.
  intros Hh. unfold segment. rewrite !run_loop_app.
  destruct (run_loop initial_state before) as [o st]. simpl.
  unfold loop_body, is_h2 in *. simpl. rewrite Hh. reflexivity.
Qed.

Lemma heading_images_ignored_witness :
  segment example_body
  = segment (firstn 1 example_body
               ++ {| tag := lit "h2"; inner_text := lit "Setup";
                     img_elements := [Some (lit "logo.png")] |}
               :: skipn 2 example_body).
Proof.
  apply (heading_images_ignored (firstn 1 example_body)
           {| tag := lit "h2"; inner_text := lit "Setup"; img_elements := [] |}
           [Some (lit "logo.png")] (skipn 2 example_body)).
  reflexivity.
Defined.

(** *** Reading a printed section back *)

Lemma split_at_first (c : N) (a1 a2 b1 b2 : pystr) :
  lacks c a1 = true -> lacks c a2 = true ->
  a1 ++ c :: b1 = a2 ++ c :: b2 -> a1 = a2 /\ b1 = b2.
Proof.
  revert a2. unfold lacks.
  induction a1 as [|x a1 IH]; intros [|y a2] H1 H2 E; simpl in *.
  - injection E as ->. auto.
  - injection E as <- _. rewrite N.eqb_refl in H2. discriminate.
  - injection E as -> _. rewrite N.eqb_refl in H1. discriminate.
  - injection E as -> E.
    apply andb_true_iff in H1 as [_ H1]. apply andb_true_iff in H2 as [_ H2].
    destruct (IH a2 H1 H2 E) as [-> ->]. auto.
Qed.

(** X19. When headings hold no newline, the text printed for a section
    determines its heading and its content: two sections printed alike are
    the same section. *)
Theorem print_section_injective (s1 s2 : Section) :
  lacks 10 (heading s1) = true -> lacks 10 (heading s2) = true ->
  print_section s1 = print_section s2 -> s1 = s2.
Proof.
  intros H1 H2 E. unfold print_section, newline in E.
  apply app_inv_head in E. apply app_inv_head in E. simpl in E.
  destruct (split_at_first _ _ _ _ _ H1 H2 E) as [Eh Ec].
  destruct s1, s2. simpl in *. congruence.
Qed.

Lemma print_section_injective_witness :
  {| heading := lit "FAQ"; content := lit "Q1" |}
  = {| heading := lit "FAQ"; content := lit "Q1" |}.
Proof.
  apply (print_section_injective
           {| heading := lit "FAQ"; content := lit "Q1" |}
           {| heading := lit "FAQ"; content := lit "Q1" |});
    reflexivity.
Defined.

(** *** What [strip] takes away *)

Lemma lstrip_decompose (s : pystr) :
  exists pre, s = pre ++ lstrip s /\ forallb isspace pre = true.
Proof.
  induction s as [|c s (pre & E & Hpre)]; simpl.
  - exists []. auto.
  - destruct (isspace c) eqn:Hc.
    + exists (c :: pre). simpl. rewrite Hc, Hpre.
      split; [congruence | reflexivity].
    + exists []. auto.
Qed.

Lemma forallb_rev {A} (f : A -> bool) (l : list A) :
  forallb f (rev l) = forallb f l.
Proof.
  induction l as [|x l IH]; simpl; trivial.
  rewrite forallb_app, IH. simpl. rewrite andb_true_r. apply andb_comm.
Qed.

Lemma strip_decompose (s : pystr) :
  exists pre post,
    s = pre ++ strip s ++ post /\
    forallb isspace pre = true /\ forallb isspace post = true.
Proof.
  destruct (lstrip_decompose s) as (pre & Es & Hpre).
  destruct (lstrip_decompose (rev (lstrip s))) as (q & Er & Hq).
  exists pre, (rev q). repeat split; trivial.
  - unfold strip, rstrip. rewrite <- rev_app_distr, <- Er, rev_involutive.
    exact Es.
  - rewrite forallb_rev. exact Hq.
Qed.

(** X20. No visible character read between two boundaries is lost: every
    printed section belongs to a run of children whose label is its heading
    and whose lines, as appended by the loop, are the section's content
    between two stretches of white space. *)
Theorem section_content_preserved (children : list Element) (s : Section) :
  In s (segment children) ->
  exists run pre post,
    In (heading s, run) (runs intro_heading [] children) /\
    run_content run = pre ++ content s ++ post /\
    forallb isspace pre = true /\ forallb isspace post = true.
Proof.
  intros Hs.
  pose proof (run_loop_runs intro_heading [] children) as E.
  change (segment children
          = flat_map section_of_run (runs intro_heading [] children)) in E.
  rewrite E in Hs. apply in_flat_map in Hs as ([label run] & Hin & Hsec).
  unfold section_of_run in Hsec. simpl in Hsec.
  destruct (existsb contributes run); [|contradiction].
  destruct Hsec as [<-|[]]. simpl.
  destruct (strip_decompose (run_content run)) as (pre & post & Ed & Hp & Hq).
  exists run, pre, post. auto.
Qed.

Lemma section_content_preserved_witness :
  exists run pre post,
    In (lit "FAQ", run) (runs intro_heading [] example_body) /\
    run_content run = pre ++ lit "Q1" ++ post /\
    forallb isspace pre = true /\ forallb isspace post = true.
Proof.
  apply (section_content_preserved example_body
           {| heading := lit "FAQ"; content := lit "Q1" |}).
  vm_compute. right. right. left. reflexivity.
Defined.

End SegmenterLaws.

(** ** Article Fetcher: what the printed lines tell *)

Module FetcherLaws.
Import Scraper.

(** X21. [scrape_single_article] prints a prefix of the body text: the whole
    text when it has at most 500 characters, and its first 500 characters
    otherwise. *)
Theorem body_text_truncated (url : pystr) (page : Page) (body : BodyEl) :
  body_el page = Some body ->
  exists rest,
    body_inner_text body
    = List.last (scrape_single_article url page) [] ++ rest /\
    length (List.last (scrape_single_article url page) [])
    = Nat.min 500 (length (body_inner_text body)).
Proof.
  intros Hbody. unfold scrape_single_article, slice_to. rewrite Hbody.
  cbn [List.last fmap option_fmap option_map default from_option].
  exists (skipn 500 (body_inner_text body)). split.
  - symmetry. apply firstn_skipn.
  - apply length_firstn.
Qed.

Lemma body_text_truncated_witness :
  exists rest,
    lit "Hello"
    = List.last
        (scrape_single_article (lit "u")
           {| title_el := None;
              body_el := Some {| body_inner_text := lit "Hello";
                                 body_children := [] |} |}) [] ++ rest /\
    length
      (List.last
         (scrape_single_article (lit "u")
            {| title_el := None;
               body_el := Some {| body_inner_text := lit "Hello";
                                  body_children := [] |} |}) [])
    = Nat.min 500 (length (lit "Hello")).
Proof.
  apply (body_text_truncated (lit "u")
           {| title_el := None;
              body_el := Some {| body_inner_text := lit "Hello";
                                 body_children := [] |} |}
           {| body_inner_text := lit "Hello"; body_children := [] |}).
  reflexivity.
Defined.

(** X22. [scrape_single_article] puts its markers on the channel of the
    page's own text: a page without body prints exactly what a page prints
    whose body text is [[No Body Found]], and a page without title exactly
    what a page prints whose title is [[No Title Found]]. *)
Theorem single_article_markers_in_band (url : pystr) (title : option pystr)
        (body : option BodyEl) (children : list Element) :
  scrape_single_article url {| title_el := title; body_el := None |}
  = scrape_single_article url
      {| title_el := title;
         body_el := Some {| body_inner_text := no_body;
                            body_children := children |} |} /\
  scrape_single_article url {| title_el := None; body_el := body |}
  = scrape_single_article url
      {| title_el := Some no_title; body_el := body |}.
Proof. split; reflexivity. Qed.

End FetcherLaws.

(** ** Image lines in the printed sections *)

Module ImageFacts.
Import Scraper Runs PyStrFacts ScraperFacts SegmenterLaws.

Lemma image_line_eq (src : pystr) :
  image_line src = (lit "[Image: " ++ src ++ lit "]") ++ newline.
Proof. unfold image_line. rewrite <- !app_assoc. reflexivity. Qed.

Lemma image_pieces_eq (imgs : list (option pystr)) :
  image_pieces imgs
  = List.concat
      (List.map (fun src => (lit "[Image: " ++ src ++ lit "]") ++ newline)
         (List.map (default []) (List.filter truthy_opt imgs))).
Proof.
  unfold image_pieces. f_equal. apply List.map_ext. exact image_line_eq.
Qed.

Lemma concat_map_In {A} (f : A -> pystr) (l : list A) (x : A) :
  In x l -> exists p1 p2, List.concat (List.map f l) = p1 ++ f x ++ p2.
Proof.
  induction l as [|y l IH]; [contradiction|]. intros [->|Hin]; simpl.
  - exists [], (List.concat (List.map f l)). reflexivity.
  - destruct (IH Hin) as (p1 & p2 & ->).
    exists (f y ++ p1), p2. rewrite <- app_assoc. reflexivity.
Qed.

Lemma image_pieces_In (imgs : list (option pystr)) (src : pystr) :
  In (Some src) imgs -> src <> [] ->
  exists p1 p2, image_pieces imgs = p1 ++ image_line src ++ p2.
Proof.
  intros Hin Hsrc. unfold image_pieces. apply concat_map_In.
  apply in_map_iff. exists (Some src). split; [reflexivity|].
  apply filter_In. split; [exact Hin|]. apply truthy_true, Hsrc.
Qed.

Lemma filter_existsb {A} (f : A -> bool) (l : list A) (x : A) (r : list A) :
  List.filter f l = x :: r -> existsb f l = true.
Proof.
  induction l as [|y l IH]; simpl; [discriminate|].
  destruct (f y); simpl; auto.
Qed.

(** *** What [strip] cannot take away *)

Lemma lstrip_keeps (a : pystr) (c : N) (r : pystr) :
  isspace c = false -> exists a', lstrip (a ++ c :: r) = a' ++ c :: r.
Proof.
  intros Hc. induction a as [|x a IH]; simpl.
  - rewrite Hc. exists []. reflexivity.
  - destruct (isspace x); [exact IH|]. exists (x :: a). reflexivity.
Qed.

Lemma rstrip_keeps (p : pystr) (c : N) (b : pystr) :
  isspace c = false -> exists b', rstrip (p ++ c :: b) = p ++ c :: b'.
Proof.
  intros Hc. unfold rstrip.
  replace (rev (p ++ c :: b)) with (rev b ++ c :: rev p)
    by (rewrite rev_app_distr; simpl; rewrite <- app_assoc; reflexivity).
  destruct (lstrip_keeps (rev b) c (rev p) Hc) as (b' & ->).
  exists (rev b'). rewrite rev_app_distr. simpl.
  rewrite rev_involutive, <- app_assoc. reflexivity.
Qed.

(** A stretch that starts and ends with a visible character survives
    [strip] wherever it stands. *)
Lemma strip_keeps (a : pystr) (c1 : N) (m : pystr) (c2 : N) (b : pystr) :
  isspace c1 = false -> isspace c2 = false ->
  exists a' b', strip (a ++ c1 :: m ++ c2 :: b) = a' ++ c1 :: m ++ c2 :: b'.
Proof.
  intros H1 H2. unfold strip.
  destruct (lstrip_keeps a c1 (m ++ c2 :: b) H1) as (a' & ->).
  destruct (rstrip_keeps (a' ++ c1 :: m) c2 b H2) as (b' & E).
  exists a', b'. rewrite <- app_assoc in E. simpl in E. rewrite E.
  rewrite <- app_assoc. reflexivity.
Qed.

Lemma strip_wrapped (c1 : N) (m : pystr) (c2 : N) :
  isspace c1 = false -> isspace c2 = false ->
  strip (c1 :: m ++ [c2] ++ newline) = c1 :: m ++ [c2].
Proof.
  intros H1 H2. unfold strip.
  assert (lstrip (c1 :: m ++ [c2] ++ newline) = c1 :: m ++ [c2] ++ newline)
    as -> by (cbn [lstrip]; rewrite H1; reflexivity).
  unfold rstrip.
  replace (rev (c1 :: m ++ [c2] ++ newline))
    with (10%N :: c2 :: rev (c1 :: m)).
  - cbn [lstrip]. change (isspace 10) with true. cbv iota. rewrite H2.
    change (rev (c2 :: rev (c1 :: m))) with (rev (rev (c1 :: m)) ++ [c2]).
    rewrite rev_involutive. reflexivity.
  - change (c1 :: m ++ [c2] ++ newline) with ((c1 :: m) ++ [c2; 10%N]).
    rewrite rev_app_distr. reflexivity.
Qed.

Lemma strip_image_line (src : pystr) :
  strip (image_line src) = lit "[Image: " ++ src ++ lit "]".
Proof.
  change (image_line src)
    with (91%N :: (lit "Image: " ++ src) ++ [93%N] ++ newline).
  rewrite strip_wrapped by reflexivity. reflexivity.
Qed.

(** *** The run a child belongs to *)

Lemma runs_head (cur : pystr) (run after : list Element) :
  exists r2 rest, runs cur run after = (cur, run ++ r2) :: rest.
Proof.
  revert run. induction after as [|c cs IH]; intros run; simpl.
  - exists [], []. rewrite app_nil_r. reflexivity.
  - destruct (is_h2 c).
    + exists [], (runs (inner_text c) [] cs). rewrite app_nil_r. reflexivity.
    + destruct (IH (run ++ [c])) as (r2 & rest & ->).
      exists (c :: r2), rest. rewrite <- app_assoc. reflexivity.
Qed.

Lemma runs_contains (cur : pystr) (run before : list Element)
      (child : Element) (after : list Element) :
  is_h2 child = false ->
  exists label r1 r2,
    In (label, r1 ++ child :: r2) (runs cur run (before ++ child :: after)).
Proof.
  intros Hc. revert cur run.
  induction before as [|b bs IH]; intros cur run; simpl.
  - rewrite Hc. destruct (runs_head cur (run ++ [child]) after)
      as (r2 & rest & ->).
    exists cur, run, r2. left. rewrite <- app_assoc. reflexivity.
  - destruct (is_h2 b).
    + destruct (IH (inner_text b) []) as (label & r1 & r2 & Hin).
      exists label, r1, r2. right. exact Hin.
    + apply IH.
Qed.

Lemma run_content_around (r1 : list Element) (child : Element)
      (r2 : list Element) :
  run_content (r1 ++ child :: r2)
  = run_content r1 ++ pieces child ++ run_content r2.
Proof.
  unfold run_content. rewrite List.map_app, concat_app. reflexivity.
Qed.

Lemma pieces_eq (child : Element) :
  pieces child
  = (if truthy (strip (inner_text child)) then inner_text child ++ newline
     else [])
    ++ List.concat
         (List.map (fun src => (lit "[Image: " ++ src ++ lit "]") ++ newline)
            (List.map (default [])
               (List.filter truthy_opt (img_elements child)))).
Proof. unfold pieces, text_piece. rewrite image_pieces_eq. reflexivity. Qed.

Lemma image_shape (src post : pystr) :
  (lit "[Image: " ++ src ++ lit "]") ++ post
  = 91%N :: (lit "Image: " ++ src) ++ 93%N :: post.
Proof. rewrite <- !app_assoc. reflexivity. Qed.

Lemma pieces_image_only (child : Element) (src : pystr) :
  strip (inner_text child) = [] ->
  List.filter truthy_opt (img_elements child) = [Some src] ->
  pieces child = (lit "[Image: " ++ src ++ lit "]") ++ newline.
Proof.
  intros Htext Himgs. rewrite pieces_eq, Htext, Himgs.
  cbn [truthy List.map List.concat]. rewrite app_nil_r. reflexivity.
Qed.

Lemma contributes_image (child : Element) (src : pystr) :
  In (Some src) (img_elements child) -> src <> [] -> contributes child = true.
Proof.
  intros Hin Hsrc. unfold contributes. apply orb_true_iff. right.
  apply existsb_exists. exists (Some src). split; [exact Hin|].
  apply truthy_true, Hsrc.
Qed.

Lemma filter_singleton_In {A} (f : A -> bool) (l : list A) (x : A) :
  List.filter f l = [x] -> In x l /\ f x = true.
Proof.
  intros E. apply filter_In. rewrite E. left. reflexivity.
Qed.

(** The section of the run a contributing child stands in. *)
Lemma section_of_child (before : list Element) (child : Element)
      (after : list Element) :
  is_h2 child = false -> contributes child = true ->
  exists label r1 r2,
    In (label, r1 ++ child :: r2)
       (runs intro_heading [] (before ++ child :: after)) /\
    In {| heading := label;
          content := strip (run_content r1 ++ pieces child ++ run_content r2) |}
       (segment (before ++ child :: after)).
Proof.
  intros Hother Hc.
  destruct (runs_contains intro_heading [] before child after Hother)
    as (label & r1 & r2 & Hrun).
  exists label, r1, r2. split; [exact Hrun|].
  pose proof (run_loop_runs intro_heading [] (before ++ child :: after)) as E.
  change (segment (before ++ child :: after)
          = flat_map section_of_run
              (runs intro_heading [] (before ++ child :: after))) in E.
  rewrite E. apply in_flat_map. exists (label, r1 ++ child :: r2).
  split; [exact Hrun|]. unfold section_of_run. cbn [fst snd].
  rewrite existsb_app. cbn [existsb]. rewrite Hc, orb_true_r.
  rewrite run_content_around. left. reflexivity.
Qed.

(** C5. A non-heading child prints nothing by itself and extends the
    accumulated content by its text line (only when its visible text is
    non-empty after trimming) followed by one line [[Image: src]] per image
    with a non-empty src, in the images' order, whatever the text was.  Each
    such image line reaches a printed section: wherever the child stands in
    the body, the section of its run holds the child's lines between those
    of its neighbours, and [[Image: src]] occurs in that section's content.
    When the trimmed text is empty and exactly one image has a non-empty
    src, the child adds that one image line and no text; alone in the body
    it gives the one section whose content is [[Image: src]]. *)
Theorem image_lines_emitted (child : Element)
        (Hother : is_h2 child = false) :
  (forall st,
      loop_body st child
      = ([], {| current_section := current_section st;
                section_content :=
                  section_content st
                  ++ (if truthy (strip (inner_text child))
                   then inner_text child ++ newline else [])
                  ++ List.concat
                     (List.map
                        (fun src => (lit "[Image: " ++ src ++ lit "]")
                                      ++ newline)
                        (List.map (default [])
                           (List.filter truthy_opt (img_elements child)))) |})) /\
  (forall before after src,
      In (Some src) (img_elements child) -> src <> [] ->
      exists s r1 r2 pre post,
        In s (segment (before ++ child :: after)) /\
        In (heading s, r1 ++ child :: r2)
           (runs intro_heading [] (before ++ child :: after)) /\
        content s
        = strip (run_content r1
                 ++ ((if truthy (strip (inner_text child))
                   then inner_text child ++ newline else [])
                     ++ List.concat
                     (List.map
                        (fun src => (lit "[Image: " ++ src ++ lit "]")
                                      ++ newline)
                        (List.map (default [])
                           (List.filter truthy_opt (img_elements child)))))
                 ++ run_content r2) /\
        content s = pre ++ (lit "[Image: " ++ src ++ lit "]") ++ post) /\
  (forall src,
      strip (inner_text child) = [] ->
      List.filter truthy_opt (img_elements child) = [Some src] ->
      (forall st,
          section_content (snd (loop_body st child))
          = section_content st ++ (lit "[Image: " ++ src ++ lit "]")
              ++ newline) /\
      segment [child]
      = [ {| heading := intro_heading;
             content := lit "[Image: " ++ src ++ lit "]" |} ] /\
      (forall run1 run2,
          no_h2 run1 = true -> no_h2 run2 = true ->
          segment (run1 ++ child :: run2)
          = [ {| heading := intro_heading;
                 content :=
                   strip (run_content run1
                          ++ ((lit "[Image: " ++ src ++ lit "]") ++ newline)
                          ++ run_content run2) |} ])).
Proof.
  rewrite <- !pieces_eq. split; [|split].
  - intros st. apply (loop_body_other st child Hother).
  - intros before after src Hin Hsrc.
    destruct (section_of_child before child after Hother
                (contributes_image child src Hin Hsrc))
      as (label & r1 & r2 & Hrun & Hsec).
    destruct (image_pieces_In _ _ Hin Hsrc) as (p1 & p2 & Eimg).
    destruct (strip_keeps (run_content r1 ++ text_piece child ++ p1)
                91 (lit "Image: " ++ src) 93
                (newline ++ p2 ++ run_content r2) eq_refl eq_refl)
      as (pre & post & Estrip).
    exists {| heading := label;
              content := strip (run_content r1 ++ pieces child
                                  ++ run_content r2) |}, r1, r2, pre, post.
    cbn [heading content]. repeat split; trivial.
    rewrite image_shape, <- Estrip. f_equal. unfold pieces. rewrite Eimg.
    rewrite image_line_eq, <- !app_assoc. reflexivity.
  - intros src Htext Himgs.
    pose proof (pieces_image_only child src Htext Himgs) as Hone.
    destruct (filter_singleton_In _ _ _ Himgs) as [Hin Hsrc].
    apply truthy_true in Hsrc.
    assert (Hruns : forall run1 run2,
               no_h2 run1 = true -> no_h2 run2 = true ->
               segment (run1 ++ child :: run2)
               = [ {| heading := intro_heading;
                      content :=
                        strip (run_content run1
                               ++ ((lit "[Image: " ++ src ++ lit "]")
                                     ++ newline)
                               ++ run_content run2) |} ]).
    { intros run1 run2 H1 H2. rewrite segment_no_heading.
      - rewrite existsb_app. cbn [existsb].
        rewrite (contributes_image child src Hin Hsrc), orb_true_r.
        rewrite run_content_around, Hone. reflexivity.
      - unfold no_h2 in *. rewrite forallb_app. cbn [forallb].
        rewrite H1, H2, Hother. reflexivity. }
    split; [|split].
    + intros st. rewrite (loop_body_other st child Hother), Hone.
      cbn [snd section_content]. rewrite <- app_assoc. reflexivity.
    + change [child] with ([] ++ child :: []).
      rewrite (Hruns [] [] eq_refl eq_refl).
      change (strip (run_content []
                     ++ ((lit "[Image: " ++ src ++ lit "]") ++ newline)
                     ++ run_content []))
        with (strip (((lit "[Image: " ++ src ++ lit "]") ++ newline) ++ [])).
      rewrite app_nil_r, <- image_line_eq, strip_image_line. reflexivity.
    + exact Hruns.
Qed.

Lemma image_lines_emitted_witness :
  segment [Console.image_only_child]
  = [ {| heading := intro_heading; content := lit "[Image: x.png]" |} ].
Proof.
  apply (proj2 (proj2 (image_lines_emitted Console.image_only_child eq_refl))
           (lit "x.png")); reflexivity.
Defined.

End ImageFacts.

(** ** Missing body container: what the console shows *)

Module MissingBodyFacts.
Import Scraper Runs Console ScraperFacts SegmenterLaws.






End MissingBodyFacts.
